(** * Blam data arrays: datum handles, checked lookup and iteration

    A shallow embedding of [src/Blam/BlamData.hpp].  The header targets a
    32-bit build (its [static_assert]s pin [sizeof(DataArrayBase)] to 0x54,
    which leaves four bytes for every pointer), so [int] is a 32-bit
    two's-complement integer, [uint16_t] and [uint32_t] are the usual
    unsigned types, and addresses are 32-bit values.  Every fixed-width
    integer is a [Z] together with the wrap-around of its type. *)

From Stdlib Require Import ZArith Lia Bool List Sorted.
From stdpp Require Import base option list gmap.

Local Open Scope Z_scope.

Module Blam.

(** ** Fixed-width integers *)

(** Conversion to an unsigned type of [w] bits. *)
Definition wrap_unsigned (w x : Z) : Z := x mod 2 ^ w.

(** Conversion to a signed two's-complement type of [w] bits. *)
Definition wrap_signed (w x : Z) : Z := (x + 2 ^ (w - 1)) mod 2 ^ w - 2 ^ (w - 1).

Definition to_uint16 : Z -> Z := wrap_unsigned 16.
Definition to_uint32 : Z -> Z := wrap_unsigned 32.
Definition to_int : Z -> Z := wrap_signed 32.

(** ** DatumIndex: a unique handle used to refer to data *)

(** [uint32_t Handle] is the only data member. *)
Record DatumIndex : Type := mkDatumIndex { Handle : Z }.

(** [DatumIndex() : Handle(0xFFFFFFFF)] *)
Definition DatumIndex_default : DatumIndex := {| Handle := 0xFFFFFFFF |}.

(** [DatumIndex(uint32_t handle) : Handle(handle)] *)
Definition DatumIndex_of_handle (handle : Z) : DatumIndex := {| Handle := handle |}.

(** [DatumIndex(TSalt salt, TIndex index) { Handle = (salt << 16) | index; }]
    Both operands are promoted to [int]: the shift and the bitwise or are
    done on [int], and the assignment converts the result to [uint32_t]. *)
Definition DatumIndex_make (salt index : Z) : DatumIndex :=
  {| Handle := to_uint32 (Z.lor (to_int (Z.shiftl salt 16)) index) |}.

(** Modelled from the spec: the definition of the static member
    [DatumIndex::Null] is not in the header, which only declares it as
    "a null datum index"; the spec gives its value, "all bits set". *)
Definition Null : DatumIndex := {| Handle := Z.ones 32 |}.

(** [TSalt Salt() const { return Handle >> 16; }] *)
Definition Salt (h : DatumIndex) : Z := to_uint16 (Z.shiftr (Handle h) 16).

(** [TIndex Index() const { return Handle & 0xFFFF; }] *)
Definition Index (h : DatumIndex) : Z := to_uint16 (Z.land (Handle h) 0xFFFF).

(** [bool operator==(const DatumIndex other) const] *)
Definition DatumIndex_eq (a b : DatumIndex) : bool := Handle a =? Handle b.

(** [bool operator!=(const DatumIndex other) const]: the negation of
    [operator==] on the same two handles. *)
Definition DatumIndex_ne (a b : DatumIndex) : bool := negb (DatumIndex_eq a b).

(** [operator uint32_t() const { return Handle; }] *)
Definition DatumIndex_to_uint32 (h : DatumIndex) : Z := Handle h.

(** [operator bool() const]: the handle compared with [Null] by [operator!=]. *)
Definition DatumIndex_to_bool (h : DatumIndex) : bool := DatumIndex_ne h Null.

(** ** DatumBase: base for structures in a data array *)

(** The private member [DatumIndex::TSalt salt] is the whole structure
    ([sizeof(DatumBase) == 2]). *)
Record DatumBase : Type := mkDatumBase { salt : Z }.

(** [DatumIndex::TSalt GetSalt() const { return salt; }] *)
Definition GetSalt (d : DatumBase) : Z := salt d.

(** [bool IsNull() const { return salt == 0; }] *)
Definition IsNull (d : DatumBase) : bool := salt d =? 0.

(** ** DataArrayBase: the header of a data array *)

Record DataArrayBase : Type := mkDataArrayBase {
  Name : list Z;          (* char Name[0x20] *)
  MaxCount : Z;           (* int: total number of data slots available *)
  DatumSize : Z;          (* int: size of each datum in bytes *)
  Alignment : Z;          (* uint8_t *)
  IsValid : bool;
  Flags : Z;              (* uint16_t *)
  Signature : Z;          (* int *)
  Allocator : Z;          (* void* *)
  NextIndex : Z;          (* int: index to start searching at to allocate *)
  FirstUnallocated : Z;   (* int: data from this index on is unallocated *)
  ActualCount : Z;        (* int: number of indices actually used *)
  NextSalt : Z;           (* TSalt: next salt value to use *)
  AltNextSalt : Z;        (* TSalt *)
  Data : Z;               (* void*: the data objects *)
  ActiveIndices : Z;      (* uint32_t*: bit array, 1 bit per index *)
  HeaderSize : Z;         (* int *)
  TotalSize : Z           (* int *)
}.

(** [GetAddress]: [static_cast<uint8_t*>(Data) + index.Index() * DatumSize].
    [index.Index()] is promoted to [int], the product is an [int], and the
    sum is an address.  Nothing but [Data], [DatumSize] and the handle's
    index is read. *)
Definition GetAddress (this : DataArrayBase) (index : DatumIndex) : Z :=
  to_uint32 (Data this + to_int (Index index * DatumSize this)).

(** ** A data array in memory

    The header together with the two blocks its pointers refer to: the
    [MaxCount] data at [Data], of which only the leading [DatumBase] of each
    is of interest here, and the [uint32_t] words of the bit array at
    [ActiveIndices]. *)
Record DataArray : Type := mkDataArray {
  base : DataArrayBase;
  Datums : list DatumBase;
  ActiveBits : list Z
}.

(** The datum in slot [i]. *)
Definition datum_at (a : DataArray) (i : Z) : DatumBase :=
  default (mkDatumBase 0) (Datums a !! Z.to_nat i).

(** Bit [i] of a bit array of 32-bit words: bit [i mod 32] of word [i / 32]. *)
Definition bit_word (bits : list Z) (i : Z) : Z :=
  default 0 (bits !! Z.to_nat (i / 32)).

Definition bit_test (bits : list Z) (i : Z) : bool :=
  Z.testbit (bit_word bits i) (i mod 32).

Definition bit_set (bits : list Z) (i : Z) : list Z :=
  <[Z.to_nat (i / 32) := Z.setbit (bit_word bits i) (i mod 32)]> bits.

Definition bit_clear (bits : list Z) (i : Z) : list Z :=
  <[Z.to_nat (i / 32) := Z.clearbit (bit_word bits i) (i mod 32)]> bits.

(** ** Memory accesses

    A computation that reads data also records the slot numbers it read. *)
Definition Access (A : Type) : Type := (A * list Z)%type.

Definition access_ret {A} (x : A) : Access A := (x, []).

Definition access_bind {A B} (m : Access A) (k : A -> Access B) : Access B :=
  let r := k (fst m) in (fst r, snd m ++ snd r).

Definition read_datum (a : DataArray) (i : Z) : Access DatumBase :=
  (datum_at a i, [i]).

Notation "'let*' x := m 'in' k" := (access_bind m (fun x => k))
  (at level 10, x name, m at level 100, k at level 200).

(** ** Checked lookup *)

(** Modelled from the spec: [DataArrayBase::Get] is declared in the header
    ("returns null if the datum index does not match a valid datum") and
    defined elsewhere.  TryGet returns the slot iff the handle's slot index
    is below the capacity, the slot's stored generation equals the handle's
    and that generation is nonzero; the address is the one RawGet
    ([GetAddress]) computes.  [None] is the null pointer. *)
Definition Get (a : DataArray) (index : DatumIndex) : Access (option Z) :=
  if Index index <? MaxCount (base a) then
    let* d := read_datum a (Index index) in
    if (GetSalt d =? Salt index) && negb (IsNull d)
    then access_ret (Some (GetAddress (base a) index))
    else access_ret None
  else access_ret None.

(** ** The allocator

    The header declares no allocation or release function; their contract
    is the spec's (Acquire and Release). *)

Definition set_allocation (b : DataArrayBase)
    (next first count nsalt : Z) : DataArrayBase :=
  {| Name := Name b; MaxCount := MaxCount b; DatumSize := DatumSize b;
     Alignment := Alignment b; IsValid := IsValid b; Flags := Flags b;
     Signature := Signature b; Allocator := Allocator b;
     NextIndex := next; FirstUnallocated := first; ActualCount := count;
     NextSalt := nsalt; AltNextSalt := AltNextSalt b;
     Data := Data b; ActiveIndices := ActiveIndices b;
     HeaderSize := HeaderSize b; TotalSize := TotalSize b |}.

(** The generation counter, incremented: it wraps at 16 bits and skips 0,
    the value that denotes an empty slot. *)
Definition next_generation (s : Z) : Z :=
  let s' := to_uint16 (s + 1) in if s' =? 0 then 1 else s'.

(** The lowest free slot in [i, i + fuel).  A slot at or beyond the
    first-unallocated watermark is free without a look at the bit array. *)
Fixpoint scan_free (bits : list Z) (first : Z) (fuel : nat) (i : Z) : option Z :=
  match fuel with
  | O => None
  | S fuel' =>
      if (first <=? i) || negb (bit_test bits i) then Some i
      else scan_free bits first fuel' (i + 1)
  end.

(** The scan resumes at the cursor, and starts over from slot 0 when the
    cursor has overrun the capacity. *)
Definition find_free (a : DataArray) : option Z :=
  let b := base a in
  let start := if MaxCount b <=? NextIndex b then 0 else NextIndex b in
  scan_free (ActiveBits a) (FirstUnallocated b)
            (Z.to_nat (MaxCount b - start)) start.

(** Modelled from the spec: Acquire, which is not in the header.  It takes
    the lowest free slot at or after the resume cursor and fails with
    [Null], the state untouched, when there is none.  On success it marks
    the slot's bit, increments the active count, increments the generation
    counter, stamps the slot with the new generation, moves the cursor
    past the slot and returns the handle packed from generation and slot.
    The watermark is raised past the slot when the slot was at or beyond
    it, which is what keeps every slot from the watermark on free. *)
Definition Acquire (a : DataArray) : DatumIndex * DataArray :=
  match find_free a with
  | None => (Null, a)
  | Some i =>
      let b := base a in
      let g := next_generation (NextSalt b) in
      (DatumIndex_make g (to_uint16 i),
       {| base := set_allocation b (i + 1) (Z.max (FirstUnallocated b) (i + 1))
                                 (ActualCount b + 1) g;
          Datums := <[Z.to_nat i := mkDatumBase g]> (Datums a);
          ActiveBits := bit_set (ActiveBits a) i |})
  end.

(** Modelled from the spec: Release, which is not in the header.  It does
    nothing for the null handle and for a handle that the checked lookup
    rejects (slot index out of range, generation zero or not the slot's).
    Otherwise it clears the slot's generation, clears its bit, decrements
    the active count and rewinds the cursor to [min(cursor, slot)]. *)
Definition Release (a : DataArray) (h : DatumIndex) : DataArray :=
  if DatumIndex_eq h Null then a
  else match fst (Get a h) with
       | None => a
       | Some _ =>
           let b := base a in
           let i := Index h in
           {| base := set_allocation b (Z.min (NextIndex b) i) (FirstUnallocated b)
                                     (ActualCount b - 1) (NextSalt b);
              Datums := <[Z.to_nat i := mkDatumBase 0]> (Datums a);
              ActiveBits := bit_clear (ActiveBits a) i |}
       end.

(** [n] Acquire calls in a row, none of them failing; [None] as soon as
    one finds no free slot. *)
Fixpoint AcquireN (n : nat) (a : DataArray) : option (list DatumIndex * DataArray) :=
  match n with
  | O => Some ([], a)
  | S n' =>
      match find_free a with
      | None => None
      | Some _ =>
          let r := Acquire a in
          match AcquireN n' (snd r) with
          | None => None
          | Some (hs, a') => Some (fst r :: hs, a')
          end
      end
  end.

(** ** Iterators

    An iterator refers to its array by address; the arrays live in a store
    indexed by address, and a call through an address that holds no array
    has no result. *)
Abbreviation Store := (gmap Z DataArray).

Definition nullptr : Z := 0.

Record DataIteratorBase : Type := mkDataIteratorBase {
  Array : Z;                       (* const DataArrayBase* *)
  CurrentDatumIndex : DatumIndex;  (* the datum index of the current datum *)
  CurrentIndex : Z                 (* int: the index of the current datum *)
}.

(** [explicit DataIteratorBase(const DataArrayBase *data)
      : Array(data), CurrentDatumIndex(DatumIndex::Null), CurrentIndex(-1)] *)
Definition DataIteratorBase_new (data : Z) : DataIteratorBase :=
  {| Array := data; CurrentDatumIndex := Null; CurrentIndex := -1 |}.

(** [explicit DataIterator(DataArray<TDatum> *data) : DataIteratorBase(data)] *)
Definition DataIterator_new (data : Z) : DataIteratorBase := DataIteratorBase_new data.

(** [DataIterator() : DataIteratorBase(nullptr)] *)
Definition DataIterator_default : DataIteratorBase := DataIteratorBase_new nullptr.

Definition set_CurrentIndex (it : DataIteratorBase) (i : Z) : DataIteratorBase :=
  {| Array := Array it; CurrentDatumIndex := CurrentDatumIndex it; CurrentIndex := i |}.

(** The lowest slot in [i, i + fuel) whose bit is set. *)
Fixpoint scan_active (bits : list Z) (fuel : nat) (i : Z) : option Z :=
  match fuel with
  | O => None
  | S fuel' => if bit_test bits i then Some i else scan_active bits fuel' (i + 1)
  end.

Definition find_active (a : DataArray) (start : Z) : option Z :=
  scan_active (ActiveBits a) (Z.to_nat (MaxCount (base a) - start)) start.

(** [end()]: [DataIterator<TDatum> result(this); result.CurrentIndex = MaxCount;
    return result;] *)
Definition end_ (st : Store) (this : Z) : option DataIteratorBase :=
  match st !! this with
  | None => None
  | Some a => Some (set_CurrentIndex (DataIterator_new this) (MaxCount (base a)))
  end.

(** [operator==]: [Array == rhs.Array && CurrentIndex == rhs.CurrentIndex
    && CurrentDatumIndex == rhs.CurrentDatumIndex] *)
Definition DataIterator_eq (l r : DataIteratorBase) : bool :=
  (Array l =? Array r) && (CurrentIndex l =? CurrentIndex r)
  && DatumIndex_eq (CurrentDatumIndex l) (CurrentDatumIndex r).

(** [operator!=]: the negation of [operator==]. *)
Definition DataIterator_ne (l r : DataIteratorBase) : bool := negb (DataIterator_eq l r).

(** [operator->()]: [Array->GetAddress(CurrentDatumIndex)] *)
Definition DataIterator_arrow (st : Store) (it : DataIteratorBase) : option Z :=
  match st !! Array it with
  | None => None
  | Some a => Some (GetAddress (base a) (CurrentDatumIndex it))
  end.

Section Advance.

(** What [Next] leaves in the iterator when it finds no further datum is
    told by neither the header nor the spec, so the model takes it as a
    parameter: from the array and the iterator before the call to the
    iterator after it.  Nothing is assumed about it. *)
Variable exhausted : DataArray -> DataIteratorBase -> DataIteratorBase.

(** Modelled from the spec: [DataIteratorBase::Next] is declared in the
    header ("moves to the next datum and returns a pointer to it; returns
    null if at the end of the array") and defined elsewhere.  Advance scans
    the bit array forward from the position after the current one for the
    next set bit, updates the current index and the current handle (packed
    from the slot's stored generation and its index) and returns the slot,
    or signals exhaustion, the null pointer, once the scan passes the
    capacity. *)
Definition Next (st : Store) (it : DataIteratorBase)
    : option (option Z * DataIteratorBase) :=
  match st !! Array it with
  | None => None
  | Some a =>
      match find_active a (CurrentIndex it + 1) with
      | Some i =>
          let h := DatumIndex_make (GetSalt (datum_at a i)) (to_uint16 i) in
          Some (Some (GetAddress (base a) h),
                {| Array := Array it; CurrentDatumIndex := h; CurrentIndex := i |})
      | None => Some (None, exhausted a it)
      end
  end.

(** [begin()]: [DataIterator<TDatum> result(this); result.Next(); return result;] *)
Definition begin (st : Store) (this : Z) : option DataIteratorBase :=
  match Next st (DataIterator_new this) with
  | None => None
  | Some (_, result) => Some result
  end.

(** [operator++()]: [Next(); return *this;] *)
Definition DataIterator_incr (st : Store) (it : DataIteratorBase) : option DataIteratorBase :=
  match Next st it with
  | None => None
  | Some (_, it') => Some it'
  end.

(** A full traversal from the iterator [it]: [Next] is called until it
    returns null, and the iterator is collected at every datum it stops
    on.  [fuel] bounds the number of calls; running out of it gives
    [None]. *)
Fixpoint traverse (fuel : nat) (st : Store) (it : DataIteratorBase)
    : option (list DataIteratorBase) :=
  match fuel with
  | O => None
  | S fuel' =>
      match Next st it with
      | None => None
      | Some (None, _) => Some []
      | Some (Some _, it') =>
          match traverse fuel' st it' with
          | None => None
          | Some rest => Some (it' :: rest)
          end
      end
  end.

(** [DataIterator<TDatum> it(array); while (it.Next()) ...] *)
Definition traverse_all (fuel : nat) (st : Store) (this : Z)
    : option (list DataIteratorBase) :=
  traverse fuel st (DataIterator_new this).

End Advance.

(** ** Well-formed arrays

    The data model's invariant: both blocks have the size the capacity asks
    for, a slot's bit is set exactly when its generation is nonzero, every
    slot from the watermark on is free, and the active count is the number
    of set bits. *)
Definition slot_indices (a : DataArray) : list Z :=
  seqZ 0 (MaxCount (base a)).

Definition active_slots (a : DataArray) : list Z :=
  filter (fun i => bit_test (ActiveBits a) i = true) (slot_indices a).

Definition slot_ok (a : DataArray) (i : Z) : bool :=
  (0 <=? GetSalt (datum_at a i)) && (GetSalt (datum_at a i) <? 65536)
  && eqb (bit_test (ActiveBits a) i) (negb (IsNull (datum_at a i)))
  && ((i <? FirstUnallocated (base a)) || negb (bit_test (ActiveBits a) i)).

Definition DataArray_wf (a : DataArray) : bool :=
  (0 <=? MaxCount (base a))
  && (Z.of_nat (length (Datums a)) =? MaxCount (base a))
  && (MaxCount (base a) <=? 32 * Z.of_nat (length (ActiveBits a)))
  && (0 <=? NextIndex (base a))
  && forallb (slot_ok a) (slot_indices a)
  && (ActualCount (base a) =? Z.of_nat (length (active_slots a))).

(** The same invariant as a proposition. *)
Record wf (a : DataArray) : Prop := {
  wf_cap : 0 <= MaxCount (base a);
  wf_datums : Z.of_nat (length (Datums a)) = MaxCount (base a);
  wf_bits : MaxCount (base a) <= 32 * Z.of_nat (length (ActiveBits a));
  wf_cursor : 0 <= NextIndex (base a);
  wf_slots : forall i, 0 <= i < MaxCount (base a) -> slot_ok a i = true;
  wf_count : ActualCount (base a) = Z.of_nat (length (active_slots a))
}.

(** The active slots from slot [p] on, in slot order. *)
Definition actives_from (a : DataArray) (p : Z) : list Z :=
  filter (fun i => bit_test (ActiveBits a) i = true)
         (seqZ p (MaxCount (base a) - p)).

(** The iterator [end()] returns for the array [a] at address [this]. *)
Definition sentinel (this : Z) (a : DataArray) : DataIteratorBase :=
  set_CurrentIndex (DataIterator_new this) (MaxCount (base a)).

(** The handle of the datum in slot [i], and the iterator positioned on it. *)
Definition handle_of (a : DataArray) (i : Z) : DatumIndex :=
  DatumIndex_make (GetSalt (datum_at a i)) (to_uint16 i).

Definition iterator_at (this : Z) (a : DataArray) (i : Z) : DataIteratorBase :=
  {| Array := this; CurrentDatumIndex := handle_of a i; CurrentIndex := i |}.

(** ** Sample arrays

    A header for [cap] slots of 16 bytes, and the array with that header
    and every slot free. *)
Definition example_header (cap : Z) : DataArrayBase :=
  {| Name := []; MaxCount := cap; DatumSize := 16; Alignment := 0;
     IsValid := true; Flags := 0; Signature := 0x64407440; Allocator := 0;
     NextIndex := 0; FirstUnallocated := 0; ActualCount := 0;
     NextSalt := 0; AltNextSalt := 0; Data := 4096; ActiveIndices := 8192;
     HeaderSize := 0x54; TotalSize := 0 |}.

Definition example_array (cap : Z) : DataArray :=
  {| base := example_header cap;
     Datums := replicate (Z.to_nat cap) (mkDatumBase 0);
     ActiveBits := replicate (Z.to_nat ((cap + 31) / 32)) 0 |}.

(** * Properties *)

(** ** Handles *)

Lemma lor_high_low (k i : Z) :
  0 <= i < 2 ^ 16 -> Z.lor (k * 2 ^ 16) i = k * 2 ^ 16 + i.
Proof.
  intros Hi.
  assert (Hland : Z.land (k * 2 ^ 16) i = 0).
  { apply Z.bits_inj'; intros n Hn.
    rewrite Z.land_spec, Z.bits_0.
    destruct (Z.lt_ge_cases n 16) as [Hlt | Hge].
    - rewrite Z.mul_pow2_bits_low by lia. reflexivity.
    - rewrite (Z.bits_above_log2 i n), andb_false_r; [reflexivity | lia |].
      destruct (Z.eq_dec i 0) as [-> | Hne]; [simpl; lia |].
      apply Z.log2_lt_pow2; [lia |].
      pose proof (Z.pow_le_mono_r 2 16 n) as Hpow. lia. }
  rewrite <- Z.lxor_lor by exact Hland.
  symmetry. apply Z.add_nocarry_lxor. exact Hland.
Qed.

Lemma to_int_shifted (s : Z) :
  0 <= s < 65536 ->
  exists k, to_int (Z.shiftl s 16) = k * 2 ^ 16 /\ (k * 2 ^ 16) mod 2 ^ 32 = s * 2 ^ 16.
Proof.
  intros Hs. rewrite Z.shiftl_mul_pow2 by lia.
  unfold to_int, wrap_signed.
  change (2 ^ (32 - 1)) with 2147483648.
  change (2 ^ 32) with 4294967296. change (2 ^ 16) with 65536.
  destruct (Z_lt_ge_dec s 32768) as [Hlo | Hhi].
  - exists s. split.
    + rewrite Z.mod_small; lia.
    + rewrite Z.mod_small; lia.
  - exists (s - 65536). split.
    + replace (s * 65536 + 2147483648)
        with ((s * 65536 - 2147483648) + 1 * 4294967296) by lia.
      rewrite Z.mod_add by lia. rewrite Z.mod_small; lia.
    + replace ((s - 65536) * 65536) with (s * 65536 + (-1) * 4294967296) by lia.
      rewrite Z.mod_add by lia. rewrite Z.mod_small; lia.
Qed.

Lemma Handle_make (s i : Z) :
  0 <= s < 65536 -> 0 <= i < 65536 ->
  Handle (DatumIndex_make s i) = s * 65536 + i.
Proof.
  intros Hs Hi. unfold DatumIndex_make; simpl.
  destruct (to_int_shifted s Hs) as (k & -> & Hk).
  rewrite lor_high_low by lia.
  unfold to_uint32, wrap_unsigned.
  rewrite <- Zplus_mod_idemp_l, Hk.
  rewrite Z.mod_small; lia.
Qed.

Lemma Salt_make (s i : Z) :
  0 <= s < 65536 -> 0 <= i < 65536 -> Salt (DatumIndex_make s i) = s.
Proof.
  intros Hs Hi. unfold Salt. rewrite Handle_make by assumption.
  rewrite Z.shiftr_div_pow2 by lia.
  change (2 ^ 16) with 65536.
  rewrite Z.div_add_l by lia. rewrite (Z.div_small i) by lia.
  unfold to_uint16, wrap_unsigned. rewrite Z.mod_small; lia.
Qed.

Lemma Index_make (s i : Z) :
  0 <= s < 65536 -> 0 <= i < 65536 -> Index (DatumIndex_make s i) = i.
Proof.
  intros Hs Hi. unfold Index. rewrite Handle_make by assumption.
  change 0xFFFF with (Z.ones 16). rewrite Z.land_ones by lia.
  change (2 ^ 16) with 65536.
  rewrite Z.add_comm, Z.mod_add by lia. rewrite (Z.mod_small i) by lia.
  unfold to_uint16, wrap_unsigned. rewrite Z.mod_small; lia.
Qed.

Lemma Index_range (h : DatumIndex) : 0 <= Index h < 65536.
Proof. unfold Index, to_uint16, wrap_unsigned. apply Z.mod_pos_bound. lia. Qed.

Lemma Salt_range (h : DatumIndex) : 0 <= Salt h < 65536.
Proof. unfold Salt, to_uint16, wrap_unsigned. apply Z.mod_pos_bound. lia. Qed.

Lemma DatumIndex_eq_true (a b : DatumIndex) : DatumIndex_eq a b = true <-> a = b.
Proof.
  unfold DatumIndex_eq. rewrite Z.eqb_eq.
  destruct a as [x], b as [y]; simpl. split; congruence.
Qed.

(** C3.  Packing is the inverse of the accessors: for a 16-bit salt [s] and
    a 16-bit index [i] the handle built by the (salt, index) constructor is
    the 32-bit value [s * 2^16 + i], [Salt()] gives back [s] and [Index()]
    gives back [i]; both accessors are functions of the 32-bit value alone,
    its upper and its lower half. *)
Theorem DatumIndex_pack_unpack (s i : Z) :
  0 <= s < 65536 -> 0 <= i < 65536 ->
  Handle (DatumIndex_make s i) = s * 65536 + i
  /\ Salt (DatumIndex_make s i) = s
  /\ Index (DatumIndex_make s i) = i
  /\ (forall h, Salt h = (Handle h / 2 ^ 16) mod 2 ^ 16
             /\ Index h = Handle h mod 2 ^ 16).
Proof.
  intros Hs Hi. repeat split.
  - apply Handle_make; assumption.
  - apply Salt_make; assumption.
  - apply Index_make; assumption.
  - unfold Salt, to_uint16, wrap_unsigned.
    rewrite Z.shiftr_div_pow2 by lia. reflexivity.
  - unfold Index, to_uint16, wrap_unsigned.
    change 0xFFFF with (Z.ones 16). rewrite Z.land_ones by lia.
    apply Z.mod_mod. lia.
Qed.

Lemma DatumIndex_pack_unpack_witness :
  Salt (DatumIndex_make 0x8001 0xFFFE) = 0x8001
  /\ Index (DatumIndex_make 0x8001 0xFFFE) = 0xFFFE.
Proof.
  destruct (DatumIndex_pack_unpack 0x8001 0xFFFE) as (_ & HS & HI & _);
    [lia | lia |].
  split; [exact HS | exact HI].
Defined.

(** C5.  The null handle is the all-ones 32-bit value: the default
    constructor and the [Null] constant both hold 0xFFFFFFFF, each of whose
    32 bits is set, and [operator==] / [operator!=] compare the 32-bit
    values bit for bit. *)
Theorem null_handle_all_ones :
  Handle DatumIndex_default = 0xFFFFFFFF
  /\ Handle Null = 0xFFFFFFFF
  /\ DatumIndex_default = Null
  /\ (forall n, Z.testbit 0xFFFFFFFF n = (0 <=? n) && (n <? 32))
  /\ (forall a b, DatumIndex_eq a b = true
                  <-> (forall n, Z.testbit (Handle a) n = Z.testbit (Handle b) n))
  /\ (forall a b, DatumIndex_eq a b = true <-> Handle a = Handle b)
  /\ (forall a b, DatumIndex_ne a b = true <-> Handle a <> Handle b).
Proof.
  split; [reflexivity |]. split; [reflexivity |]. split; [reflexivity |].
  split; [| split; [| split]].
  - intros n. change 0xFFFFFFFF with (Z.ones 32).
    destruct (Z.leb_spec 0 n) as [Hn | Hn]; simpl.
    + destruct (Z.ltb_spec n 32) as [Hlt | Hge].
      * apply Z.ones_spec_low. lia.
      * apply Z.ones_spec_high. lia.
    + apply Z.testbit_neg_r. exact Hn.
  - intros a b. unfold DatumIndex_eq. rewrite Z.eqb_eq.
    split.
    + intros ->. reflexivity.
    + intros Hbits. apply Z.bits_inj. exact Hbits.
  - intros a b. unfold DatumIndex_eq. apply Z.eqb_eq.
  - intros a b. unfold DatumIndex_ne, DatumIndex_eq.
    rewrite negb_true_iff. apply Z.eqb_neq.
Qed.

(** C8.  Converting a handle to [bool] gives [true] exactly when the handle
    differs from the null sentinel; the default-constructed handle converts
    to [false]. *)
Theorem DatumIndex_to_bool_iff_not_null :
  (forall h, DatumIndex_to_bool h = true <-> h <> Null)
  /\ DatumIndex_to_bool DatumIndex_default = false.
Proof.
  split; [| reflexivity].
  intros h. unfold DatumIndex_to_bool, DatumIndex_ne.
  rewrite negb_true_iff, <- not_true_iff_false, DatumIndex_eq_true.
  reflexivity.
Qed.

(** C10.  The packing constructor can produce the null sentinel: salt
    0xFFFF with index 0xFFFF gives a handle equal to [Null], and its
    conversion to [bool] is [false]. *)
Theorem make_ffff_ffff_is_null :
  DatumIndex_make 0xFFFF 0xFFFF = Null
  /\ DatumIndex_eq (DatumIndex_make 0xFFFF 0xFFFF) Null = true
  /\ DatumIndex_ne (DatumIndex_make 0xFFFF 0xFFFF) Null = false
  /\ DatumIndex_to_bool (DatumIndex_make 0xFFFF 0xFFFF) = false.
Proof. repeat split; vm_compute; reflexivity. Qed.

(** ** The unchecked accessor *)

Lemma to_uint32_add_to_int (p x : Z) :
  to_uint32 (p + to_int x) = (p + x) mod 2 ^ 32.
Proof.
  unfold to_uint32, to_int, wrap_unsigned, wrap_signed.
  change (2 ^ (32 - 1)) with 2147483648. change (2 ^ 32) with 4294967296.
  rewrite Z.add_sub_assoc.
  rewrite <- Zminus_mod_idemp_l, <- Zplus_mod_idemp_r, Z.mod_mod by lia.
  rewrite Zplus_mod_idemp_r, Zminus_mod_idemp_l.
  f_equal. lia.
Qed.

(** C6.  [GetAddress] returns the address [Data + Index() * DatumSize]
    (address arithmetic of the 32-bit build), whatever the handle: the
    result depends on nothing but [Data], [DatumSize] and the handle's
    index, so neither [MaxCount] nor the state of the slot is consulted.
    When the sum does not leave the address range it is that very number. *)
Theorem GetAddress_unchecked (a : DataArrayBase) (h : DatumIndex) :
  GetAddress a h = (Data a + Index h * DatumSize a) mod 2 ^ 32
  /\ (forall a', Data a' = Data a -> DatumSize a' = DatumSize a ->
                 GetAddress a' h = GetAddress a h)
  /\ (0 <= Data a -> 0 <= DatumSize a ->
      Data a + Index h * DatumSize a < 2 ^ 32 ->
      GetAddress a h = Data a + Index h * DatumSize a).
Proof.
  assert (Heq : forall b, GetAddress b h = (Data b + Index h * DatumSize b) mod 2 ^ 32).
  { intros b. unfold GetAddress. apply to_uint32_add_to_int. }
  split; [apply Heq |]. split.
  - intros a' HD HS. rewrite !Heq, HD, HS. reflexivity.
  - intros HD HS Hlt. rewrite Heq. apply Z.mod_small.
    pose proof (Index_range h). nia.
Qed.

Lemma GetAddress_unchecked_witness :
  MaxCount (example_header 4) <= Index (DatumIndex_make 0 9)
  /\ GetAddress (example_header 4) (DatumIndex_make 0 9) = 4096 + 9 * 16.
Proof.
  split; [vm_compute; discriminate |].
  destruct (GetAddress_unchecked (example_header 4) (DatumIndex_make 0 9))
    as (_ & _ & H).
  rewrite H; [reflexivity | vm_compute; discriminate ..| reflexivity].
Defined.

(** ** Checked lookup and release *)

Lemma Get_result (a : DataArray) (h : DatumIndex) :
  fst (Get a h) =
    if (Index h <? MaxCount (base a))
       && (GetSalt (datum_at a (Index h)) =? Salt h)
       && negb (GetSalt (datum_at a (Index h)) =? 0)
    then Some (GetAddress (base a) h) else None.
Proof.
  unfold Get, IsNull, GetSalt.
  destruct (Index h <? MaxCount (base a)); simpl; [| reflexivity].
  destruct ((salt (datum_at a (Index h)) =? Salt h)
            && negb (salt (datum_at a (Index h)) =? 0)); reflexivity.
Qed.

Lemma Get_reads (a : DataArray) (h : DatumIndex) :
  snd (Get a h) = if Index h <? MaxCount (base a) then [Index h] else [].
Proof.
  unfold Get.
  destruct (Index h <? MaxCount (base a)); simpl; [| reflexivity].
  destruct ((GetSalt (datum_at a (Index h)) =? Salt h)
            && negb (IsNull (datum_at a (Index h)))); reflexivity.
Qed.

(** C1.  The checked lookup returns the pointer to the datum exactly when
    the handle's index is below [MaxCount], the stored salt of that slot
    equals the handle's salt and that salt is nonzero; for every other
    handle it returns null; and every slot it reads lies within the array. *)
Theorem Get_checked (a : DataArray) (h : DatumIndex) :
  (fst (Get a h) = Some (GetAddress (base a) h)
   <-> Index h < MaxCount (base a)
       /\ GetSalt (datum_at a (Index h)) = Salt h
       /\ Salt h <> 0)
  /\ (fst (Get a h) = None
      <-> ~ (Index h < MaxCount (base a)
             /\ GetSalt (datum_at a (Index h)) = Salt h
             /\ Salt h <> 0))
  /\ Forall (fun i => 0 <= i < MaxCount (base a)) (snd (Get a h)).
Proof.
  rewrite Get_result, Get_reads.
  destruct (Z.ltb_spec (Index h) (MaxCount (base a))) as [Hlt | Hge]; simpl.
  - destruct (Z.eqb_spec (GetSalt (datum_at a (Index h))) (Salt h)) as [He | Hne];
      simpl.
    + destruct (Z.eqb_spec (GetSalt (datum_at a (Index h))) 0) as [Hz | Hnz];
        simpl.
      * split; [| split].
        -- split; [discriminate | intros (_ & _ & H); congruence].
        -- split; [intros _ (_ & _ & H); congruence | reflexivity].
        -- constructor; [| constructor]. pose proof (Index_range h). lia.
      * split; [| split].
        -- split; [intros _; repeat split; congruence | reflexivity].
        -- split; [discriminate |].
           intros H; exfalso; apply H; repeat split; congruence.
        -- constructor; [| constructor]. pose proof (Index_range h). lia.
    + split; [| split].
      * split; [discriminate | intros (_ & H & _); congruence].
      * split; [intros _ (_ & H & _); congruence | reflexivity].
      * constructor; [| constructor]. pose proof (Index_range h). lia.
  - split; [| split].
    + split; [discriminate | intros (H & _); lia].
    + split; [intros _ (H & _); lia | reflexivity].
    + constructor.
Qed.

(** C4.  Releasing the null handle, a handle whose index is out of range,
    or a handle whose generation is not the one stored in its slot leaves
    the whole array as it was: header, generations and bit array. *)
Theorem Release_bad_handle_noop (a : DataArray) (h : DatumIndex) :
  h = Null
  \/ MaxCount (base a) <= Index h
  \/ GetSalt (datum_at a (Index h)) <> Salt h ->
  Release a h = a.
Proof.
  intros Hbad. unfold Release.
  destruct (DatumIndex_eq h Null) eqn:Hnull; [reflexivity |].
  rewrite Get_result.
  destruct Hbad as [-> | [Hrange | Hsalt]].
  - rewrite (proj2 (DatumIndex_eq_true Null Null) eq_refl) in Hnull. discriminate.
  - rewrite (proj2 (Z.ltb_ge _ _) Hrange). reflexivity.
  - rewrite (proj2 (Z.eqb_neq _ _) Hsalt), andb_false_r. reflexivity.
Qed.

Lemma Release_bad_handle_noop_witness :
  let a := snd (Acquire (example_array 4)) in
  Release a Null = a
  /\ Release a (DatumIndex_make 1 7) = a
  /\ Release a (DatumIndex_make 5 0) = a.
Proof.
  intros a. split; [| split].
  - apply (Release_bad_handle_noop a Null). left. reflexivity.
  - apply (Release_bad_handle_noop a (DatumIndex_make 1 7)).
    right. left. vm_compute. discriminate.
  - apply (Release_bad_handle_noop a (DatumIndex_make 5 0)).
    right. right. vm_compute. discriminate.
Defined.

(** Releasing a live handle is not a no-op: the slot is freed. *)
Lemma Release_live_handle :
  let r := Acquire (example_array 4) in
  Release (snd r) (fst r) <> snd r
  /\ ActualCount (base (Release (snd r) (fst r))) = 0
  /\ fst (Get (Release (snd r) (fst r)) (fst r)) = None.
Proof. repeat split; vm_compute; discriminate. Qed.

(** ** Iterators *)

(** C9.  A freshly constructed iterator is positioned before the first
    slot: whatever array it is bound to, its current index is -1 and its
    current datum handle is the null handle.  The same holds for the typed
    iterator, whose constructor delegates to the base. *)
Theorem new_iterator_before_first (data : Z) :
  Array (DataIteratorBase_new data) = data
  /\ CurrentIndex (DataIteratorBase_new data) = -1
  /\ CurrentDatumIndex (DataIteratorBase_new data) = Null
  /\ DataIterator_new data = DataIteratorBase_new data
  /\ CurrentIndex DataIterator_default = -1
  /\ CurrentDatumIndex DataIterator_default = Null.
Proof. repeat split. Qed.

Lemma DataIterator_eq_true (l r : DataIteratorBase) :
  DataIterator_eq l r = true
  <-> Array l = Array r
      /\ CurrentIndex l = CurrentIndex r
      /\ CurrentDatumIndex l = CurrentDatumIndex r.
Proof.
  unfold DataIterator_eq.
  rewrite !andb_true_iff, !Z.eqb_eq, DatumIndex_eq_true. tauto.
Qed.

Lemma DataIterator_eq_refl (it : DataIteratorBase) : DataIterator_eq it it = true.
Proof. apply DataIterator_eq_true. auto. Qed.

(** Allocation, release and reuse on an array of four slots: the handle of
    the released datum is rejected afterwards, the handle of its successor
    in the slot is accepted, and a traversal visits slots 0 and 1. *)
Example reuse_of_a_slot :
  let r0 := Acquire (example_array 4) in
  let r1 := Acquire (snd r0) in
  let r2 := Acquire (Release (snd r1) (fst r0)) in
  Index (fst r0) = 0 /\ Index (fst r1) = 1 /\ Index (fst r2) = 0
  /\ Salt (fst r2) <> Salt (fst r0)
  /\ fst (Get (snd r2) (fst r0)) = None
  /\ fst (Get (snd r2) (fst r2)) = Some 4096
  /\ (forall exhausted,
        fmap (M := option) (fmap (M := list) CurrentDatumIndex)
             (traverse_all exhausted 3 {[ 0x1000 := snd r2 ]} 0x1000)
        = Some [fst r2; fst r1]).
Proof. vm_compute. repeat split; discriminate. Qed.

(** An array of one slot is exhausted by one allocation, and usable again
    after the release. *)
Example exhaustion_of_one_slot :
  let r0 := Acquire (example_array 1) in
  let r1 := Acquire (snd r0) in
  let r2 := Acquire (Release (snd r1) (fst r0)) in
  fst r0 <> Null /\ r1 = (Null, snd r0)
  /\ fst r2 <> Null /\ Salt (fst r2) <> Salt (fst r0).
Proof. vm_compute. repeat split; discriminate. Qed.

(** ** Iteration visits the active slots *)

Section Iteration.

Variable exhausted : DataArray -> DataIteratorBase -> DataIteratorBase.
Variable st : Store.
Variable this : Z.
Variable a : DataArray.
Hypothesis Hthis : st !! this = Some a.

Lemma scan_active_filter (fuel : nat) (i : Z) :
  match scan_active (ActiveBits a) fuel i with
  | Some j =>
      i <= j < i + Z.of_nat fuel /\ bit_test (ActiveBits a) j = true
      /\ filter (fun k => bit_test (ActiveBits a) k = true)
                (seqZ i (Z.of_nat fuel))
         = filter (fun k => bit_test (ActiveBits a) k = true)
                  (seqZ j (Z.of_nat fuel - (j - i)))
  | None =>
      filter (fun k => bit_test (ActiveBits a) k = true)
             (seqZ i (Z.of_nat fuel)) = []
  end.
Proof.
  revert i. induction fuel as [| fuel IH]; intros i; [reflexivity |].
  cbn [scan_active].
  rewrite (seqZ_cons i) by lia.
  replace (Z.pred (Z.of_nat (S fuel))) with (Z.of_nat fuel) by lia.
  replace (Z.succ i) with (i + 1) by lia.
  destruct (bit_test (ActiveBits a) i) eqn:Hbit.
  - split; [lia |]. split; [exact Hbit |].
    rewrite Z.sub_diag, Z.sub_0_r.
    rewrite (seqZ_cons i) by lia.
    replace (Z.pred (Z.of_nat (S fuel))) with (Z.of_nat fuel) by lia.
    replace (Z.succ i) with (i + 1) by lia. reflexivity.
  - rewrite filter_cons_False by congruence.
    specialize (IH (i + 1)).
    destruct (scan_active (ActiveBits a) fuel (i + 1)) as [j |]; [| exact IH].
    destruct IH as (Hj & Hact & Heq).
    split; [lia |]. split; [exact Hact |].
    rewrite Heq. f_equal. f_equal. lia.
Qed.

Lemma find_active_spec (p : Z) :
  match find_active a p with
  | Some j => p <= j < MaxCount (base a) /\ bit_test (ActiveBits a) j = true
              /\ actives_from a p = actives_from a j
  | None => actives_from a p = []
  end.
Proof.
  unfold find_active, actives_from.
  destruct (Z_le_gt_dec (MaxCount (base a) - p) 0) as [Hle | Hgt].
  - replace (Z.to_nat (MaxCount (base a) - p)) with 0%nat by lia.
    simpl. rewrite seqZ_nil by lia. reflexivity.
  - pose proof (scan_active_filter (Z.to_nat (MaxCount (base a) - p)) p) as H.
    rewrite Z2Nat.id in H by lia.
    destruct (scan_active _ _ p) as [j |]; [| exact H].
    destruct H as (Hj & Hact & Heq).
    split; [lia |]. split; [exact Hact |].
    rewrite Heq. f_equal. f_equal. lia.
Qed.

Lemma actives_from_cons (j : Z) :
  bit_test (ActiveBits a) j = true -> j < MaxCount (base a) ->
  actives_from a j = j :: actives_from a (j + 1).
Proof.
  intros Hact Hlt. unfold actives_from.
  rewrite (seqZ_cons j) by lia.
  rewrite filter_cons_True by exact Hact.
  replace (Z.succ j) with (j + 1) by lia.
  replace (Z.pred (MaxCount (base a) - j)) with (MaxCount (base a) - (j + 1)) by lia.
  reflexivity.
Qed.

Lemma Next_at (it : DataIteratorBase) :
  Array it = this ->
  Next exhausted st it =
    Some (match find_active a (CurrentIndex it + 1) with
          | Some j => (Some (GetAddress (base a) (handle_of a j)), iterator_at this a j)
          | None => (None, exhausted a it)
          end).
Proof.
  intros Hit. unfold Next. rewrite Hit, Hthis.
  destruct (find_active a (CurrentIndex it + 1)); reflexivity.
Qed.

(** Whatever a traversal returns is the list of the active slots after the
    iterator's position. *)
Lemma traverse_sound (fuel : nat) (it : DataIteratorBase) (its : list DataIteratorBase) :
  Array it = this ->
  traverse exhausted fuel st it = Some its ->
  its = iterator_at this a <$> actives_from a (CurrentIndex it + 1).
Proof.
  revert it its. induction fuel as [| fuel IH]; intros it its Hit Htr;
    [discriminate |].
  cbn [traverse] in Htr. rewrite Next_at in Htr by exact Hit.
  pose proof (find_active_spec (CurrentIndex it + 1)) as Hfind.
  destruct (find_active a (CurrentIndex it + 1)) as [j |].
  - destruct Hfind as (Hj & Hact & Heq).
    destruct (traverse exhausted fuel st (iterator_at this a j)) as [rest |] eqn:Hrest;
      [| discriminate].
    injection Htr as <-.
    rewrite Heq, (actives_from_cons j Hact) by lia.
    apply IH in Hrest; [| reflexivity]. rewrite Hrest. reflexivity.
  - injection Htr as <-. rewrite Hfind. reflexivity.
Qed.

(** With more fuel than there are active slots left, a traversal returns. *)
Lemma traverse_complete (fuel : nat) (it : DataIteratorBase) :
  Array it = this ->
  (length (actives_from a (CurrentIndex it + 1)) < fuel)%nat ->
  traverse exhausted fuel st it
  = Some (iterator_at this a <$> actives_from a (CurrentIndex it + 1)).
Proof.
  revert it. induction fuel as [| fuel IH]; intros it Hit Hlen; [lia |].
  cbn [traverse]. rewrite Next_at by exact Hit.
  pose proof (find_active_spec (CurrentIndex it + 1)) as Hfind.
  destruct (find_active a (CurrentIndex it + 1)) as [j |].
  - destruct Hfind as (Hj & Hact & Heq).
    rewrite Heq, (actives_from_cons j Hact) in * by lia.
    rewrite (IH (iterator_at this a j)); [reflexivity | reflexivity |].
    cbn in *. lia.
  - rewrite Hfind. reflexivity.
Qed.

Lemma active_slots_from_0 : active_slots a = actives_from a 0.
Proof.
  unfold active_slots, slot_indices, actives_from. rewrite Z.sub_0_r. reflexivity.
Qed.

Lemma traverse_all_sound (fuel : nat) (its : list DataIteratorBase) :
  traverse_all exhausted fuel st this = Some its ->
  its = iterator_at this a <$> active_slots a.
Proof.
  intros Htr. rewrite active_slots_from_0.
  apply (traverse_sound fuel (DataIterator_new this)); [reflexivity | exact Htr].
Qed.

Lemma traverse_all_complete (fuel : nat) :
  (length (active_slots a) < fuel)%nat ->
  traverse_all exhausted fuel st this = Some (iterator_at this a <$> active_slots a).
Proof.
  intros Hlen. rewrite active_slots_from_0 in *.
  apply (traverse_complete fuel (DataIterator_new this)); [reflexivity | exact Hlen].
Qed.

(** [begin()] stops on the first active slot, if there is one. *)
Lemma begin_first :
  active_slots a <> [] ->
  begin exhausted st this = head (iterator_at this a <$> active_slots a).
Proof.
  intros Hne. rewrite active_slots_from_0 in *.
  unfold begin. rewrite Next_at by reflexivity.
  change (CurrentIndex (DataIterator_new this) + 1) with 0.
  pose proof (find_active_spec 0) as Hfind.
  destruct (find_active a 0) as [j |]; [| congruence].
  destruct Hfind as (Hj & Hact & Heq).
  rewrite Heq, (actives_from_cons j Hact) by lia. reflexivity.
Qed.

End Iteration.

(** ** The bit array *)

Lemma bit_test_set (bits : list Z) (i j : Z) :
  0 <= i -> (Z.to_nat (i / 32) < length bits)%nat -> 0 <= j ->
  bit_test (bit_set bits i) j = (i =? j) || bit_test bits j.
Proof.
  intros Hi Hlen Hj. unfold bit_test, bit_set, bit_word.
  destruct (Z.eq_dec (i / 32) (j / 32)) as [Hw | Hw].
  - rewrite <- Hw, list_lookup_insert_eq by exact Hlen. simpl.
    rewrite Z.setbit_eqb by (apply Z.mod_pos_bound; lia).
    f_equal.
    destruct (Z.eqb_spec i j) as [-> | Hne].
    + apply Z.eqb_refl.
    + apply Z.eqb_neq. intros Hm. apply Hne.
      rewrite (Z.div_mod i 32), (Z.div_mod j 32) by lia. congruence.
  - rewrite list_lookup_insert_ne.
    + destruct (Z.eqb_spec i j) as [-> | Hne]; [congruence | reflexivity].
    + intros Heq. apply Hw.
      apply Z2Nat.inj in Heq; [exact Heq | |]; apply Z.div_pos; lia.
Qed.

Lemma bit_set_length (bits : list Z) (i : Z) :
  length (bit_set bits i) = length bits.
Proof. unfold bit_set. apply length_insert. Qed.

(** ** The invariant, as a proposition *)

Lemma DataArray_wf_iff (a : DataArray) : DataArray_wf a = true <-> wf a.
Proof.
  unfold DataArray_wf.
  rewrite !andb_true_iff, !Z.leb_le, !Z.eqb_eq, forallb_forall.
  unfold slot_indices.
  split.
  - intros (((((H0 & H2) & H3) & H4) & H5) & H6).
    split; try assumption.
    intros i Hi. apply H5, list_elem_of_In, elem_of_seqZ. lia.
  - intros [Hc Hd Hb Hn Hs Hk].
    repeat split; try assumption; try lia.
    intros i Hi. apply list_elem_of_In, elem_of_seqZ in Hi. apply Hs. lia.
Qed.

Lemma slot_ok_iff (a : DataArray) (i : Z) :
  slot_ok a i = true
  <-> 0 <= GetSalt (datum_at a i) < 65536
      /\ (bit_test (ActiveBits a) i = true <-> GetSalt (datum_at a i) <> 0)
      /\ (FirstUnallocated (base a) <= i -> bit_test (ActiveBits a) i = false).
Proof.
  unfold slot_ok, IsNull, GetSalt.
  rewrite !andb_true_iff, orb_true_iff, Z.leb_le, !Z.ltb_lt, eqb_true_iff,
    negb_true_iff.
  destruct (bit_test (ActiveBits a) i);
    destruct (Z.eqb_spec (salt (datum_at a i)) 0) as [Hz | Hz]; simpl;
    intuition (try congruence; try lia).
Qed.

(** ** Acquire keeps the invariant *)

Lemma filter_length_agree (P Q : Z -> Prop)
    `{!forall x, Decision (P x)} `{!forall x, Decision (Q x)} (l : list Z) :
  (forall j, j ∈ l -> (Q j <-> P j)) ->
  length (filter Q l) = length (filter P l).
Proof.
  induction l as [| x l IH]; intros Hagree; [reflexivity |].
  assert (Hx : Q x <-> P x) by (apply Hagree; left).
  assert (Hl : length (filter Q l) = length (filter P l)).
  { apply IH. intros j Hj. apply Hagree. right. exact Hj. }
  rewrite !filter_cons.
  destruct (decide (Q x)), (decide (P x)); simpl; try tauto; congruence.
Qed.

Lemma filter_length_add (P Q : Z -> Prop)
    `{!forall x, Decision (P x)} `{!forall x, Decision (Q x)} (l : list Z) (i : Z) :
  NoDup l -> i ∈ l -> ~ P i -> Q i ->
  (forall j, j ∈ l -> j <> i -> (Q j <-> P j)) ->
  length (filter Q l) = S (length (filter P l)).
Proof.
  induction l as [| x l IH]; intros Hnd Hin HP HQ Hagree.
  - inversion Hin.
  - apply NoDup_cons in Hnd as [Hx Hnd].
    rewrite !filter_cons.
    destruct (decide (x = i)) as [-> | Hne].
    + destruct (decide (Q i)); [| tauto]. destruct (decide (P i)); [tauto |].
      simpl. f_equal. apply filter_length_agree.
      intros j Hj. apply Hagree; [right; exact Hj |].
      intros ->. tauto.
    + apply elem_of_cons in Hin as [-> | Hin]; [congruence |].
      assert (HxQ : Q x <-> P x) by (apply Hagree; [left | exact Hne]).
      assert (Hl : length (filter Q l) = S (length (filter P l))).
      { apply IH; try assumption. intros j Hj. apply Hagree. right. exact Hj. }
      destruct (decide (Q x)), (decide (P x)); simpl; try tauto; congruence.
Qed.

Lemma next_generation_range (s : Z) : 1 <= next_generation s < 65536.
Proof.
  unfold next_generation, to_uint16, wrap_unsigned.
  change (2 ^ 16) with 65536.
  pose proof (Z.mod_pos_bound (s + 1) 65536).
  destruct (Z.eqb_spec ((s + 1) mod 65536) 0); lia.
Qed.

Lemma scan_free_spec (bits : list Z) (first : Z) (fuel : nat) (i j : Z) :
  scan_free bits first fuel i = Some j ->
  i <= j < i + Z.of_nat fuel /\ (first <= j \/ bit_test bits j = false).
Proof.
  revert i. induction fuel as [| fuel IH]; intros i; [discriminate |].
  cbn [scan_free].
  destruct (Z.leb_spec first i) as [Hf | Hf]; simpl.
  - intros [= <-]. split; [lia | left; exact Hf].
  - destruct (bit_test bits i) eqn:Hbit; simpl.
    + intros Hscan. apply IH in Hscan. split; [lia | tauto].
    + intros [= <-]. split; [lia | right; exact Hbit].
Qed.

Lemma find_free_spec (a : DataArray) (i : Z) :
  wf a -> find_free a = Some i ->
  0 <= i < MaxCount (base a) /\ bit_test (ActiveBits a) i = false.
Proof.
  intros Hwf Hfind. unfold find_free in Hfind. cbv zeta in Hfind.
  apply scan_free_spec in Hfind as [Hrange Hfree].
  pose proof (wf_cap a Hwf). pose proof (wf_cursor a Hwf).
  assert (Hi : 0 <= i < MaxCount (base a)).
  { destruct (Z.leb_spec (MaxCount (base a)) (NextIndex (base a))); lia. }
  split; [exact Hi |].
  destruct Hfree as [Hfirst | Hbit]; [| exact Hbit].
  apply (slot_ok_iff a i); [apply (wf_slots a Hwf); exact Hi | exact Hfirst].
Qed.

Lemma datum_at_insert_eq (a : DataArray) (hdr : DataArrayBase) (bits : list Z)
    (i : Z) (d : DatumBase) :
  0 <= i < Z.of_nat (length (Datums a)) ->
  datum_at {| base := hdr; Datums := <[Z.to_nat i := d]> (Datums a);
              ActiveBits := bits |} i = d.
Proof.
  intros Hi. unfold datum_at. simpl.
  rewrite list_lookup_insert_eq by lia. reflexivity.
Qed.

Lemma datum_at_insert_ne (a : DataArray) (hdr : DataArrayBase) (bits : list Z)
    (i j : Z) (d : DatumBase) :
  0 <= i -> 0 <= j -> j <> i ->
  datum_at {| base := hdr; Datums := <[Z.to_nat i := d]> (Datums a);
              ActiveBits := bits |} j = datum_at a j.
Proof.
  intros Hi Hj Hne. unfold datum_at. simpl.
  rewrite list_lookup_insert_ne by lia. reflexivity.
Qed.

Lemma Acquire_success (a : DataArray) (i : Z) :
  wf a -> find_free a = Some i ->
  wf (snd (Acquire a))
  /\ MaxCount (base (snd (Acquire a))) = MaxCount (base a)
  /\ ActualCount (base (snd (Acquire a))) = ActualCount (base a) + 1
  /\ 0 <= i < MaxCount (base a)
  /\ bit_test (ActiveBits a) i = false
  /\ fst (Acquire a) = handle_of (snd (Acquire a)) i
  /\ (forall j, 0 <= j ->
        bit_test (ActiveBits (snd (Acquire a))) j
        = (i =? j) || bit_test (ActiveBits a) j)
  /\ (forall j, 0 <= j -> j <> i ->
        datum_at (snd (Acquire a)) j = datum_at a j).
Proof.
  intros Hwf Hfind.
  destruct (find_free_spec a i Hwf Hfind) as [Hi Hfree].
  pose proof (wf_cap a Hwf) as Hcap. pose proof (wf_datums a Hwf) as Hdat.
  pose proof (wf_bits a Hwf) as Hbits.
  pose proof (next_generation_range (NextSalt (base a))) as Hg.
  unfold Acquire. rewrite Hfind. cbv zeta. cbn [fst snd].
  set (g := next_generation (NextSalt (base a))) in *.
  set (hdr := set_allocation _ _ _ _ _).
  set (a' := {| base := hdr; Datums := _; ActiveBits := _ |}).
  assert (Hword : (Z.to_nat (i / 32) < length (ActiveBits a))%nat).
  { assert (i / 32 < Z.of_nat (length (ActiveBits a))).
    { apply Z.div_lt_upper_bound; lia. }
    pose proof (Z.div_pos i 32). lia. }
  assert (Hbit' : forall j, 0 <= j ->
            bit_test (ActiveBits a') j = (i =? j) || bit_test (ActiveBits a) j).
  { intros j Hj. apply bit_test_set; [lia | exact Hword | exact Hj]. }
  assert (Hdi : datum_at a' i = mkDatumBase g).
  { apply datum_at_insert_eq. lia. }
  assert (Hdj : forall j, 0 <= j -> j <> i -> datum_at a' j = datum_at a j).
  { intros j Hj Hne. apply datum_at_insert_ne; [lia | exact Hj | exact Hne]. }
  split; [| repeat split; try assumption; try reflexivity; try lia].
  - split.
    + exact Hcap.
    + cbn. rewrite length_insert. exact Hdat.
    + cbn. rewrite bit_set_length. exact Hbits.
    + cbn. lia.
    + intros j Hj. change (MaxCount (base a')) with (MaxCount (base a)) in Hj.
      apply slot_ok_iff. rewrite Hbit' by lia.
      change (FirstUnallocated (base a'))
        with (Z.max (FirstUnallocated (base a)) (i + 1)).
      destruct (Z.eqb_spec i j) as [<- | Hne].
      * rewrite Hdi. cbn. split; [lia |]. split; [| lia].
        split; intros _; [lia | reflexivity].
      * rewrite Hdj by (try lia; congruence). simpl.
        destruct (proj1 (slot_ok_iff a j) (wf_slots a Hwf j Hj)) as (Hs & Hb & Hf).
        split; [exact Hs |]. split; [exact Hb |].
        intros Hmax. apply Hf. lia.
    + change (ActualCount (base a')) with (ActualCount (base a) + 1).
      rewrite (wf_count a Hwf). unfold active_slots, slot_indices.
      change (MaxCount (base a')) with (MaxCount (base a)).
      rewrite (filter_length_add
                 (fun k => bit_test (ActiveBits a) k = true)
                 (fun k => bit_test (ActiveBits a') k = true)
                 (seqZ 0 (MaxCount (base a))) i).
      * lia.
      * apply NoDup_seqZ.
      * apply elem_of_seqZ. lia.
      * congruence.
      * rewrite Hbit' by lia. rewrite Z.eqb_refl. reflexivity.
      * intros j Hj Hne. apply elem_of_seqZ in Hj.
        rewrite Hbit' by lia.
        destruct (Z.eqb_spec i j); [congruence |]. reflexivity.
  - unfold handle_of. rewrite Hdi. reflexivity.
Qed.

Lemma AcquireN_spec (n : nat) (a0 a : DataArray) (hs : list DatumIndex) :
  wf a0 -> AcquireN n a0 = Some (hs, a) ->
  wf a
  /\ MaxCount (base a) = MaxCount (base a0)
  /\ ActualCount (base a) = ActualCount (base a0) + Z.of_nat n
  /\ length hs = n
  /\ (forall j, 0 <= j -> bit_test (ActiveBits a) j = true ->
        (bit_test (ActiveBits a0) j = true /\ datum_at a j = datum_at a0 j)
        \/ handle_of a j ∈ hs).
Proof.
  revert a0 hs. induction n as [| n IH]; intros a0 hs Hwf HN.
  - cbn in HN. injection HN as <- <-.
    split; [exact Hwf |]. split; [reflexivity |]. split; [lia |].
    split; [reflexivity |]. intros j _ Hbit. left. auto.
  - cbn [AcquireN] in HN.
    destruct (find_free a0) as [i |] eqn:Hfind; [| discriminate].
    destruct (Acquire_success a0 i Hwf Hfind)
      as (Hwf1 & Hcap1 & Hcnt1 & Hi & Hfree & Hh & Hbit1 & Hdat1).
    destruct (AcquireN n (snd (Acquire a0))) as [[hs' a'] |] eqn:Hrest;
      [| discriminate].
    injection HN as <- <-.
    destruct (IH _ _ Hwf1 Hrest) as (Hwf' & Hcap' & Hcnt' & Hlen' & Hact').
    split; [exact Hwf' |]. split; [congruence |]. split; [lia |].
    split; [simpl; congruence |].
    intros j Hj Hbit.
    destruct (Hact' j Hj Hbit) as [[Hb1 Hd1] | Hin].
    + rewrite Hbit1 in Hb1 by exact Hj.
      destruct (Z.eqb_spec i j) as [<- | Hne].
      * right. rewrite Hh. unfold handle_of. rewrite Hd1. left.
      * left. split; [exact Hb1 |]. rewrite Hd1. apply Hdat1; [exact Hj | congruence].
    + right. right. exact Hin.
Qed.

Lemma StronglySorted_seqZ (m n : Z) : StronglySorted Z.lt (seqZ m n).
Proof.
  destruct (Z_le_gt_dec n 0) as [Hle | Hgt].
  - rewrite seqZ_nil by exact Hle. constructor.
  - rewrite <- (Z2Nat.id n) by lia.
    generalize (Z.to_nat n) as k. clear. intros k. revert m.
    induction k as [| k IH]; intros m; [constructor |].
    rewrite seqZ_cons by lia.
    replace (Z.pred (Z.of_nat (S k))) with (Z.of_nat k) by lia.
    constructor; [apply IH |].
    apply Forall_forall. intros x Hx. apply elem_of_seqZ in Hx. lia.
Qed.

Lemma StronglySorted_filter (P : Z -> Prop) `{!forall x, Decision (P x)} (l : list Z) :
  StronglySorted Z.lt l -> StronglySorted Z.lt (filter P l).
Proof.
  induction 1 as [| x l Hl IH Hx]; [constructor |].
  rewrite filter_cons. destruct (decide (P x)); [| exact IH].
  constructor; [exact IH |].
  apply Forall_forall. intros y Hy. apply list_elem_of_filter in Hy as [_ Hy].
  rewrite Forall_forall in Hx. apply Hx. exact Hy.
Qed.

Lemma active_slots_sorted (a : DataArray) : StronglySorted Z.lt (active_slots a).
Proof. apply StronglySorted_filter, StronglySorted_seqZ. Qed.

Lemma active_slot_handle (a : DataArray) (j : Z) :
  wf a -> MaxCount (base a) <= 65536 -> j ∈ active_slots a ->
  0 <= j < MaxCount (base a)
  /\ Index (handle_of a j) = j
  /\ Salt (handle_of a j) = GetSalt (datum_at a j)
  /\ fst (Get a (handle_of a j)) = Some (GetAddress (base a) (handle_of a j)).
Proof.
  intros Hwf Hcap Hin. apply list_elem_of_filter in Hin as [Hbit Hin].
  apply elem_of_seqZ in Hin.
  assert (Hj : 0 <= j < MaxCount (base a)) by lia.
  destruct (proj1 (slot_ok_iff a j) (wf_slots a Hwf j Hj)) as (Hs & Hb & _).
  assert (Hu : to_uint16 j = j).
  { unfold to_uint16, wrap_unsigned. apply Z.mod_small.
    change (2 ^ 16) with 65536. lia. }
  assert (HI : Index (handle_of a j) = j).
  { unfold handle_of. rewrite Hu. apply Index_make; lia. }
  assert (HS : Salt (handle_of a j) = GetSalt (datum_at a j)).
  { unfold handle_of. rewrite Hu. apply Salt_make; lia. }
  split; [exact Hj |]. split; [exact HI |]. split; [exact HS |].
  rewrite Get_result, HI, HS.
  rewrite (proj2 (Z.ltb_lt _ _) (proj2 Hj)), Z.eqb_refl.
  rewrite (proj2 (Z.eqb_neq _ _) (proj1 Hb Hbit)). reflexivity.
Qed.

Lemma CurrentIndex_iterator_at (this : Z) (a : DataArray) (l : list Z) :
  CurrentIndex <$> (iterator_at this a <$> l) = l.
Proof. induction l as [| x l IH]; [reflexivity |]. cbn. f_equal. exact IH. Qed.

(** ** Allocation on the sample arrays *)

Lemma filter_none (P : Z -> Prop) `{!forall x, Decision (P x)} (l : list Z) :
  (forall x, ~ P x) -> filter P l = [].
Proof.
  intros HP. induction l as [| x l IH]; [reflexivity |].
  rewrite filter_cons_False by apply HP. exact IH.
Qed.

Lemma filter_all (P : Z -> Prop) `{!forall x, Decision (P x)} (l : list Z) :
  length (filter P l) = length l -> forall x, x ∈ l -> P x.
Proof.
  induction l as [| y l IH]; intros Hlen x Hx; [inversion Hx |].
  pose proof (length_filter P l) as Hle.
  rewrite filter_cons in Hlen.
  destruct (decide (P y)) as [Hy | Hy]; simpl in Hlen; [| lia].
  apply elem_of_cons in Hx as [-> | Hx]; [exact Hy |].
  apply IH; [lia | exact Hx].
Qed.

Lemma example_array_datum (cap i : Z) :
  datum_at (example_array cap) i = mkDatumBase 0.
Proof.
  unfold datum_at, example_array. cbn [Datums].
  destruct (replicate (Z.to_nat cap) (mkDatumBase 0) !! Z.to_nat i) as [d |] eqn:Hd;
    [| reflexivity].
  apply lookup_replicate in Hd as [-> _]. reflexivity.
Qed.

Lemma example_array_bit (cap i : Z) :
  bit_test (ActiveBits (example_array cap)) i = false.
Proof.
  unfold bit_test, bit_word, example_array. cbn [ActiveBits].
  destruct (replicate (Z.to_nat ((cap + 31) / 32)) 0 !! Z.to_nat (i / 32))
    as [w |] eqn:Hw; simpl.
  - apply lookup_replicate in Hw as [-> _]. apply Z.bits_0.
  - apply Z.bits_0.
Qed.

(** The sample array satisfies the invariant, whatever its capacity. *)
Lemma example_array_wf (cap : Z) : 0 <= cap -> wf (example_array cap).
Proof.
  intros Hcap. split.
  - exact Hcap.
  - unfold example_array. cbn [Datums base MaxCount example_header].
    rewrite length_replicate. lia.
  - unfold example_array. cbn [ActiveBits base MaxCount example_header].
    rewrite length_replicate.
    assert (0 <= (cap + 31) / 32) by (apply Z.div_pos; lia).
    rewrite Z2Nat.id by assumption.
    pose proof (Z.mul_succ_div_gt (cap + 31) 32). lia.
  - cbn. lia.
  - intros i _. unfold slot_ok.
    rewrite example_array_datum, example_array_bit.
    cbn [negb]. rewrite orb_true_r. reflexivity.
  - unfold active_slots. rewrite filter_none; [reflexivity |].
    intros x. rewrite example_array_bit. discriminate.
Qed.

(** On an array whose cursor and watermark both stand at slot [k], with
    room for [n] more slots, [n] Acquire calls in a row all succeed. *)
Lemma AcquireN_succeeds (n : nat) (a : DataArray) (k : Z) :
  NextIndex (base a) = k -> FirstUnallocated (base a) = k -> 0 <= k ->
  k + Z.of_nat n <= MaxCount (base a) ->
  exists hs a', AcquireN n a = Some (hs, a').
Proof.
  revert a k. induction n as [| n IH]; intros a k Hnext Hfirst Hk Hroom.
  - exists [], a. reflexivity.
  - assert (Hfind : find_free a = Some k).
    { unfold find_free. cbv zeta. rewrite Hnext, Hfirst.
      destruct (Z.leb_spec (MaxCount (base a)) k) as [Hle | Hlt]; [lia |].
      destruct (Z.to_nat (MaxCount (base a) - k)) as [| fuel] eqn:Hfuel; [lia |].
      cbn [scan_free]. rewrite Z.leb_refl. reflexivity. }
    cbn [AcquireN]. rewrite Hfind.
    destruct (IH (snd (Acquire a)) (k + 1)) as (hs & a' & HN).
    + unfold Acquire. rewrite Hfind. reflexivity.
    + unfold Acquire. rewrite Hfind. cbn. lia.
    + lia.
    + unfold Acquire. rewrite Hfind. cbn. lia.
    + rewrite HN. eexists. eexists. reflexivity.
Qed.




(** ** Further properties of handles *)

Lemma Handle_split (h : DatumIndex) :
  0 <= Handle h < 2 ^ 32 ->
  Salt h = Handle h / 65536 /\ Index h = Handle h mod 65536
  /\ Handle h = Salt h * 65536 + Index h.
Proof.
  intros Hh. change (2 ^ 32) with 4294967296 in Hh.
  assert (HS : Salt h = Handle h / 65536).
  { unfold Salt, to_uint16, wrap_unsigned.
    rewrite Z.shiftr_div_pow2 by lia. change (2 ^ 16) with 65536.
    apply Z.mod_small. split; [apply Z.div_pos; lia |].
    apply Z.div_lt_upper_bound; lia. }
  assert (HI : Index h = Handle h mod 65536).
  { unfold Index, to_uint16, wrap_unsigned.
    change 0xFFFF with (Z.ones 16). rewrite Z.land_ones by lia.
    change (2 ^ 16) with 65536. apply Z.mod_mod. lia. }
  split; [exact HS |]. split; [exact HI |].
  rewrite HS, HI. pose proof (Z.div_mod (Handle h) 65536). lia.
Qed.

(** X1.  Unpacking and packing again gives the handle back: a 32-bit
    handle is [Salt() * 2^16 + Index()], and the (salt, index) constructor
    applied to its own two fields rebuilds it. *)
Theorem DatumIndex_unpack_pack (h : DatumIndex) :
  0 <= Handle h < 2 ^ 32 ->
  Handle h = Salt h * 65536 + Index h
  /\ DatumIndex_make (Salt h) (Index h) = h.
Proof.
  intros Hh. destruct (Handle_split h Hh) as (_ & _ & Hsplit).
  split; [exact Hsplit |].
  pose proof (Handle_make (Salt h) (Index h) (Salt_range h) (Index_range h)) as Hm.
  destruct h as [x]. destruct (DatumIndex_make _ _) as [y].
  simpl in *. f_equal. lia.
Qed.

Lemma DatumIndex_unpack_pack_witness :
  DatumIndex_make (Salt (DatumIndex_of_handle 0xDEADBEEF))
                  (Index (DatumIndex_of_handle 0xDEADBEEF))
  = DatumIndex_of_handle 0xDEADBEEF.
Proof.
  apply (DatumIndex_unpack_pack (DatumIndex_of_handle 0xDEADBEEF)).
  simpl. lia.
Defined.

(** X2.  The (salt, index) constructor is injective on 16-bit arguments:
    two handles built by it are equal only if both the salts and the
    indices are. *)
Theorem DatumIndex_make_inj (s i s' i' : Z) :
  0 <= s < 65536 -> 0 <= i < 65536 ->
  0 <= s' < 65536 -> 0 <= i' < 65536 ->
  DatumIndex_make s i = DatumIndex_make s' i' ->
  s = s' /\ i = i'.
Proof.
  intros Hs Hi Hs' Hi' Heq.
  split.
  - rewrite <- (Salt_make s i), <- (Salt_make s' i') by assumption.
    rewrite Heq. reflexivity.
  - rewrite <- (Index_make s i), <- (Index_make s' i') by assumption.
    rewrite Heq. reflexivity.
Qed.

Lemma DatumIndex_make_inj_witness :
  DatumIndex_make 3 7 <> DatumIndex_make 7 3.
Proof.
  intros H.
  apply (DatumIndex_make_inj 3 7 7 3) in H; [lia | lia | lia | lia | lia].
Defined.

(** X3.  [operator==] on 32-bit handles holds exactly when the two salts
    agree and the two indices agree. *)
Theorem DatumIndex_eq_fields (a b : DatumIndex) :
  0 <= Handle a < 2 ^ 32 -> 0 <= Handle b < 2 ^ 32 ->
  (DatumIndex_eq a b = true <-> Salt a = Salt b /\ Index a = Index b).
Proof.
  intros Ha Hb.
  destruct (Handle_split a Ha) as (_ & _ & Hsa).
  destruct (Handle_split b Hb) as (_ & _ & Hsb).
  unfold DatumIndex_eq. rewrite Z.eqb_eq. split.
  - intros Heq.
    assert (a = b) as -> by (destruct a, b; simpl in *; congruence).
    split; reflexivity.
  - intros [HS HI]. lia.
Qed.

Lemma DatumIndex_eq_fields_witness :
  DatumIndex_eq (DatumIndex_make 2 5) (DatumIndex_of_handle 0x20005) = true.
Proof.
  apply (DatumIndex_eq_fields (DatumIndex_make 2 5) (DatumIndex_of_handle 0x20005));
    [vm_compute; split; [discriminate | reflexivity] ..
    | split; reflexivity].
Defined.

(** X4.  The 32-bit value a handle converts to orders handles first by
    salt and then by index. *)
Theorem DatumIndex_to_uint32_lexicographic (a b : DatumIndex) :
  0 <= Handle a < 2 ^ 32 -> 0 <= Handle b < 2 ^ 32 ->
  (DatumIndex_to_uint32 a < DatumIndex_to_uint32 b
   <-> Salt a < Salt b \/ (Salt a = Salt b /\ Index a < Index b)).
Proof.
  intros Ha Hb. unfold DatumIndex_to_uint32.
  destruct (Handle_split a Ha) as (_ & _ & Hsa).
  destruct (Handle_split b Hb) as (_ & _ & Hsb).
  pose proof (Index_range a). pose proof (Index_range b).
  pose proof (Salt_range a). pose proof (Salt_range b).
  lia.
Qed.

Lemma DatumIndex_to_uint32_lexicographic_witness :
  DatumIndex_to_uint32 (DatumIndex_make 1 0xFFFF)
  < DatumIndex_to_uint32 (DatumIndex_make 2 0).
Proof.
  apply (DatumIndex_to_uint32_lexicographic
           (DatumIndex_make 1 0xFFFF) (DatumIndex_make 2 0));
    [vm_compute; split; [discriminate | reflexivity] ..
    | left; vm_compute; reflexivity].
Defined.

(** X5.  A 32-bit handle converts to [false] exactly when its salt and its
    index are both 0xFFFF, so every other (salt, index) pair converts to
    [true], the pair (0, 0) of an empty slot included. *)
Theorem DatumIndex_to_bool_false_fields (h : DatumIndex) :
  0 <= Handle h < 2 ^ 32 ->
  (DatumIndex_to_bool h = false <-> Salt h = 0xFFFF /\ Index h = 0xFFFF).
Proof.
  intros Hh. destruct (Handle_split h Hh) as (_ & _ & Hsplit).
  pose proof (Index_range h). pose proof (Salt_range h).
  unfold DatumIndex_to_bool, DatumIndex_ne, DatumIndex_eq.
  rewrite negb_false_iff, Z.eqb_eq.
  change (Handle Null) with 4294967295.
  lia.
Qed.

Lemma DatumIndex_to_bool_false_fields_witness :
  DatumIndex_to_bool (DatumIndex_make 0 0) <> false.
Proof.
  intros H.
  apply (DatumIndex_to_bool_false_fields (DatumIndex_make 0 0)) in H.
  - destruct H as [H _]. vm_compute in H. discriminate.
  - vm_compute. split; [discriminate | reflexivity].
Defined.

(** ** Further properties of the unchecked accessor *)

Lemma GetAddress_exact (a : DataArrayBase) (h : DatumIndex) :
  0 <= Data a -> 0 < DatumSize a ->
  Data a + (Index h + 1) * DatumSize a <= 2 ^ 32 ->
  GetAddress a h = Data a + Index h * DatumSize a.
Proof.
  intros HD HS Hfit. unfold GetAddress. rewrite to_uint32_add_to_int.
  apply Z.mod_small. pose proof (Index_range h).
  change (2 ^ 32) with 4294967296 in *. nia.
Qed.

(** X6.  Data do not overlap: for two handles whose data lie within the
    address range, [GetAddress] gives the same address exactly when the
    indices are equal, whatever the salts, and the datum of the lower
    index ends before the datum of the higher index begins. *)
Theorem GetAddress_separates_indices (a : DataArrayBase) (h1 h2 : DatumIndex) :
  0 <= Data a -> 0 < DatumSize a ->
  Data a + (Index h1 + 1) * DatumSize a <= 2 ^ 32 ->
  Data a + (Index h2 + 1) * DatumSize a <= 2 ^ 32 ->
  (GetAddress a h1 = GetAddress a h2 <-> Index h1 = Index h2)
  /\ (Index h1 < Index h2 -> GetAddress a h1 + DatumSize a <= GetAddress a h2).
Proof.
  intros HD HS H1 H2.
  rewrite (GetAddress_exact a h1), (GetAddress_exact a h2) by lia.
  split.
  - split; [intros Heq; nia | intros ->; reflexivity].
  - intros Hlt. nia.
Qed.

Lemma GetAddress_separates_indices_witness :
  GetAddress (example_header 4) (DatumIndex_make 9 2)
  = GetAddress (example_header 4) (DatumIndex_make 1 2)
  /\ GetAddress (example_header 4) (DatumIndex_make 9 2) + 16
     <= GetAddress (example_header 4) (DatumIndex_make 1 3).
Proof.
  split.
  - apply (GetAddress_separates_indices (example_header 4)
             (DatumIndex_make 9 2) (DatumIndex_make 1 2));
      [vm_compute; discriminate | reflexivity
      | vm_compute; discriminate | vm_compute; discriminate | reflexivity].
  - apply (GetAddress_separates_indices (example_header 4)
             (DatumIndex_make 9 2) (DatumIndex_make 1 3));
      [vm_compute; discriminate | reflexivity
      | vm_compute; discriminate | vm_compute; discriminate | reflexivity].
Defined.

(** X7.  Since [GetAddress] makes no check, where its result lies is
    decided by the index alone: the datum it addresses is inside the block
    of [MaxCount] data at [Data] exactly when the handle's index is below
    [MaxCount], and an index at or above [MaxCount] gives an address at or
    past the end of the block. *)
Theorem GetAddress_within_block (a : DataArrayBase) (h : DatumIndex) :
  0 <= Data a -> 0 < DatumSize a -> 0 <= MaxCount a ->
  Data a + (Index h + 1) * DatumSize a <= 2 ^ 32 ->
  Data a <= GetAddress a h
  /\ (Index h < MaxCount a
      <-> GetAddress a h + DatumSize a <= Data a + MaxCount a * DatumSize a)
  /\ (MaxCount a <= Index h
      <-> Data a + MaxCount a * DatumSize a <= GetAddress a h).
Proof.
  intros HD HS HM Hfit.
  rewrite (GetAddress_exact a h) by lia.
  pose proof (Index_range h).
  split; [nia |]. split; split; intros Hx; nia.
Qed.

Lemma GetAddress_within_block_witness :
  Data (example_header 4) + 4 * 16
  <= GetAddress (example_header 4) (DatumIndex_make 1 4).
Proof.
  apply (GetAddress_within_block (example_header 4) (DatumIndex_make 1 4));
    [vm_compute; discriminate | reflexivity | vm_compute; discriminate
    | vm_compute; discriminate | vm_compute; discriminate].
Defined.

(** ** Further properties of iterators *)

(** X8.  [operator==] on iterators is an equivalence relation, and
    [operator!=] holds exactly when it does not. *)
Theorem DataIterator_eq_equivalence :
  (forall x, DataIterator_eq x x = true)
  /\ (forall x y, DataIterator_eq x y = DataIterator_eq y x)
  /\ (forall x y z, DataIterator_eq x y = true -> DataIterator_eq y z = true ->
                    DataIterator_eq x z = true)
  /\ (forall x y, DataIterator_ne x y = true <-> DataIterator_eq x y = false).
Proof.
  split; [exact DataIterator_eq_refl |]. split; [| split].
  - intros x y. unfold DataIterator_eq, DatumIndex_eq.
    rewrite (Z.eqb_sym (Array x)), (Z.eqb_sym (CurrentIndex x)),
      (Z.eqb_sym (Handle (CurrentDatumIndex x))). reflexivity.
  - intros x y z Hxy Hyz. apply DataIterator_eq_true in Hxy, Hyz.
    apply DataIterator_eq_true.
    destruct Hxy as (? & ? & ?), Hyz as (? & ? & ?). repeat split; congruence.
  - intros x y. unfold DataIterator_ne. apply negb_true_iff.
Qed.

Lemma DataIterator_eq_equivalence_witness :
  DataIterator_eq (DataIterator_new 0x1000) (DataIteratorBase_new 0x1000) = true.
Proof.
  destruct DataIterator_eq_equivalence as (_ & _ & Htrans & _).
  apply (Htrans _ (DataIterator_new 0x1000)); reflexivity.
Defined.

(** X9.  The [end()] iterators of two arrays compare equal only if the two
    are the same array object: arrays of equal capacity and equal content
    at different addresses have different [end()] iterators, and calling
    [end()] twice on one array gives equal iterators. *)
Theorem end_identifies_array (st : Store) (p q : Z) (e1 e2 : DataIteratorBase) :
  end_ st p = Some e1 -> end_ st q = Some e2 ->
  (DataIterator_eq e1 e2 = true <-> p = q).
Proof.
  unfold end_. intros H1 H2.
  destruct (st !! p) as [a1 |] eqn:Hp; [| discriminate].
  destruct (st !! q) as [a2 |] eqn:Hq; [| discriminate].
  injection H1 as <-. injection H2 as <-.
  rewrite DataIterator_eq_true. cbn. split.
  - intros (Hpq & _). exact Hpq.
  - intros <-. rewrite Hp in Hq. injection Hq as <-. auto.
Qed.

Lemma end_identifies_array_witness :
  let st : Store := {[ 0x1000 := example_array 4; 0x2000 := example_array 4 ]} in
  exists e1 e2, end_ st 0x1000 = Some e1 /\ end_ st 0x2000 = Some e2
                /\ DataIterator_eq e1 e2 <> true.
Proof.
  intros st. eexists. eexists.
  split; [reflexivity |]. split; [reflexivity |].
  intros H.
  apply (end_identifies_array st 0x1000 0x2000) in H;
    [discriminate | reflexivity | reflexivity].
Defined.

(** X10.  Dereferencing an iterator that is not on a datum, a freshly
    constructed one or [end()], is not guarded: [operator->] applies
    [GetAddress] to the null handle and so computes the address of slot
    0xFFFF, which lies at or past the end of the data of every array with
    fewer than 65536 slots. *)
Theorem arrow_off_datum (st : Store) (this : Z) (a : DataArray) (e : DataIteratorBase) :
  st !! this = Some a ->
  end_ st this = Some e ->
  0 <= Data (base a) -> 0 < DatumSize (base a) ->
  0 <= MaxCount (base a) <= 0xFFFF ->
  Data (base a) + 65536 * DatumSize (base a) <= 2 ^ 32 ->
  DataIterator_arrow st e = DataIterator_arrow st (DataIterator_new this)
  /\ DataIterator_arrow st e
     = Some (Data (base a) + 0xFFFF * DatumSize (base a))
  /\ Data (base a) + MaxCount (base a) * DatumSize (base a)
     <= Data (base a) + 0xFFFF * DatumSize (base a).
Proof.
  intros Ha He HD HS HM Hfit.
  unfold end_ in He. rewrite Ha in He. injection He as <-.
  unfold DataIterator_arrow. cbn. rewrite Ha.
  split; [reflexivity |]. split.
  - f_equal. rewrite GetAddress_exact; [reflexivity | lia | lia |].
    change (Index Null) with 65535. lia.
  - nia.
Qed.

Lemma arrow_off_datum_witness :
  let st : Store := {[ 0x1000 := example_array 4 ]} in
  DataIterator_arrow st (sentinel 0x1000 (example_array 4))
  = Some (4096 + 0xFFFF * 16).
Proof.
  intros st.
  apply (arrow_off_datum st 0x1000 (example_array 4)
           (sentinel 0x1000 (example_array 4)));
    [reflexivity | reflexivity | vm_compute; discriminate | reflexivity
    | split; vm_compute; discriminate | vm_compute; discriminate].
Defined.

End Blam.
